(** * Verification of Week1/verify_voluspa.py

    The checker runs the Go program [voluspa.go], captures its standard
    output and decides whether that output announces every dwarf of the
    reference list exactly once.  This file embeds the checker and proves
    the properties its specification states.

    Python strings are sequences of Unicode code points: a [str] is a list
    of code points, each a natural number.  The three library methods the
    checker uses ([str.splitlines], [str.strip], [str.startswith]) are
    embedded after CPython's implementation, [collections.Counter] as a
    finite map from labels to occurrence counts. *)

From Stdlib Require Import NArith ZArith Ascii String.
From stdpp Require Import base decidable option list gmap.

(** ** Strings *)

(** A Python [str]: its code points in order. *)
Abbreviation str := (list N).

(** A literal whose characters are all ASCII. *)
Definition lit (s : string) : str :=
  N_of_ascii <$> list_ascii_of_string s.

(** Line feed, carriage return and space. *)
Definition LF : N := 10%N.

Definition CR : N := 13%N.

Definition SP : N := 32%N.

(** The characters [str.strip()] removes, those of [str.isspace]:
    CPython's [_PyUnicode_IsWhitespace].  U+0009 to U+000D, U+001C to
    U+0020, U+0085, U+00A0, U+1680, U+2000 to U+200A, U+2028, U+2029,
    U+202F, U+205F and U+3000. *)
Definition is_space (c : N) : bool :=
  (((9 <=? c) && (c <=? 13)) || ((28 <=? c) && (c <=? 32))
   || (c =? 133) || (c =? 160) || (c =? 5760)
   || ((8192 <=? c) && (c <=? 8202))
   || (c =? 8232) || (c =? 8233) || (c =? 8239) || (c =? 8287)
   || (c =? 12288))%N.

(** The line boundaries of [str.splitlines]: CPython's
    [_PyUnicode_IsLinebreak].  U+000A to U+000D, U+001C to U+001E, U+0085,
    U+2028 and U+2029. *)
Definition is_linebreak (c : N) : bool :=
  (((10 <=? c) && (c <=? 13)) || ((28 <=? c) && (c <=? 30))
   || (c =? 133) || (c =? 8232) || (c =? 8233))%N.

(** What is left to scan after the line break [c]: a carriage return
    directly followed by a line feed is one line break. *)
Definition after_break (c : N) (rest : str) : str :=
  match rest with
  | c' :: rest' => if ((c =? CR) && (c' =? LF))%N then rest' else rest
  | [] => rest
  end.

(** [str.splitlines()] without [keepends], after the loop of CPython's
    [stringlib_splitlines].  [cur] is the part of the current line scanned
    so far; a line is emitted at each line break, and at the end of the
    string when characters are pending: a final line break opens no
    further line. *)
Fixpoint splitlines_from (cur s : str) : list str :=
  match s with
  | [] => match cur with [] => [] | _ :: _ => [cur] end
  | c :: rest =>
      if is_linebreak c
      then cur :: splitlines_from [] (after_break c rest)
      else splitlines_from (cur ++ [c]) rest
  end.

Definition splitlines (s : str) : list str := splitlines_from [] s.

(** [str.lstrip()], [str.rstrip()] and [str.strip()] with no argument:
    whitespace is removed from the left end, then from the right end
    (CPython's [do_strip]). *)
Fixpoint lstrip (s : str) : str :=
  match s with
  | [] => []
  | c :: rest => if is_space c then lstrip rest else s
  end.

Definition rstrip (s : str) : str := reverse (lstrip (reverse s)).

Definition strip (s : str) : str := rstrip (lstrip s).

(** [s.startswith(p)] and the slice [s[n:]]. *)
Definition startswith (s p : str) : bool := bool_decide (p `prefix_of` s).

Definition slice_from (n : nat) (s : str) : str := drop n s.

(** ** The constants of the module *)

(** [DWARVES] (lines 5 to 8) and [PREFIX] (line 10).  The six letters
    outside ASCII are written by their code points; the source file holds
    each as one precomposed character, encoded in UTF-8. *)
Definition DWARVES : list str :=
  [ 222 :: lit "orinn";                  (* U+00DE: capital thorn *)
    lit "Balin";
    lit "B" ++ 237 :: lit "furr";        (* U+00ED: i acute *)
    lit "B" ++ 225 :: lit "furr";        (* U+00E1: a acute *)
    lit "B" ++ 246 :: lit "mburr";       (* U+00F6: o diaeresis *)
    lit "D" ++ 243 :: lit "ri";          (* U+00F3: o acute *)
    lit "Dvalinn";
    lit "F" ++ 237 :: lit "li";
    lit "Gl" ++ 243 :: lit "inn";
    lit "K" ++ 237 :: lit "li";
    lit "N" ++ 243 :: lit "ri";
    222 :: lit "rainn";
    211 :: lit "ri";                     (* U+00D3: capital o acute *)
    lit "Gandalfr" ]%N.

Definition PREFIX : str := lit "Hi! My name is ".

(** ** The verifier *)

(** [collections.Counter(l)], a dictionary from elements to counts: every
    element of [l] is counted by [self[elem] = self.get(elem, 0) + 1].
    Two counters built this way are equal, for [==], when they are equal as
    dictionaries. *)
Definition count_up (m : gmap str nat) (elem : str) : gmap str nat :=
  <[elem := S (default 0 (m !! elem))]> m.

Definition Counter (l : list str) : gmap str nat := foldl count_up ∅ l.

(** The list comprehension of line 15,
    [[ln.strip() for ln in output.splitlines() if ln.strip() != ""]]. *)
Definition announced (raw : list str) : list str :=
  strip <$> filter (fun ln => strip ln ≠ []) raw.

Definition lines_of (output : str) : list str := announced (splitlines output).

(** The [for] loop of lines 22 to 26: [None] is the [return False] of a
    line without the prefix, [Some names] the list built when the loop
    ends. *)
Fixpoint collect (lines names : list str) : option (list str) :=
  match lines with
  | [] => Some names
  | ln :: rest =>
      if negb (startswith ln PREFIX) then None
      else collect rest (names ++ [slice_from (length PREFIX) ln])
  end.

(** [verify] (lines 13 to 29). *)
Definition verify (output : str) : bool :=
  let lines := lines_of output in
  if negb (bool_decide (length lines = length DWARVES)) then false
  else match collect lines [] with
       | None => false
       | Some names => bool_decide (Counter names = Counter DWARVES)
       end.

(** ** The program *)

(** How [subprocess.run(cmd, capture_output=True, text=True,
    encoding="utf-8", timeout=10)] ends: with an exception of class
    [Exception], which is what [except Exception] catches, or with a
    completed process, its exit status and its decoded standard output. *)
Inductive fault : Type :=
  | LaunchFailure      (* OSError: the command cannot be started *)
  | TimeoutExpired     (* the command ran for more than 10 seconds *)
  | OtherException.    (* any other Exception, such as UnicodeDecodeError *)

Record CompletedProcess : Type := { returncode : Z; stdout : str }.

Inductive outcome : Type :=
  | Raised (e : fault)
  | Returned (proc : CompletedProcess).

(** What a run of the program does that the claims speak of: calls of
    [verify] and lines printed on standard output. *)
Inductive event : Type :=
  | Verified (output : str)
  | Printed (line : string).

(** A computation that leaves a trace of events and returns a value. *)
Definition io (A : Type) : Type := (list event * A)%type.

#[local] Instance io_ret : MRet io := fun A a => ([], a).

#[local] Instance io_bind : MBind io := fun A B k m =>
  let '(t1, a) := m in let '(t2, b) := k a in (t1 ++ t2, b).

Definition print (line : string) : io unit := ([Printed line], tt).

Definition call_verify (output : str) : io bool :=
  ([Verified output], verify output).

(** [main] (lines 32 to 53), given how the invocation ends. *)
Definition main (run : outcome) : io unit :=
  match run with
  | Raised _ => print "No"
  | Returned proc =>
      if negb (returncode proc =? 0)%Z then print "No"
      else call_verify (stdout proc) ≫= fun ok : bool =>
           print (if ok then "Yes" else "No")
  end.

(** The events of a run, the lines it prints and the texts it verifies. *)
Definition trace (run : outcome) : list event := (main run).1.

Definition printed (t : list event) : list string :=
  omap (fun e => match e with Printed line => Some line | _ => None end) t.

Definition verified (t : list event) : list str :=
  omap (fun e => match e with Verified output => Some output | _ => None end) t.

(** ** The module as a store *)

(** Python keeps a list as an object that a program can change in place,
    and a module-level name as a binding that every call reads.  To say
    what [verify] does to them, its statements are embedded a second time
    over a store: the list objects by location, and what the names
    [DWARVES] and [PREFIX] are bound to.  [DWARVES] is bound to a list
    object; [PREFIX] to a string, and strings are immutable values, like
    the counters, which no statement of [verify] changes once built. *)
Definition loc : Type := nat.

Record store : Type := {
  objects : gmap loc (list str);
  DWARVES_at : loc;
  PREFIX_is : str
}.

(** A statement: from a store to a value and a store, or to no result
    when it reads a location that holds no object. *)
Definition py (A : Type) : Type := store -> option (A * store).

#[local] Instance py_ret : MRet py := fun A a st => Some (a, st).

#[local] Instance py_bind : MBind py := fun A B k m st =>
  match m st with Some (a, st') => k a st' | None => None end.

(** A list display or a list comprehension: a new list object. *)
Definition new_list (l : list str) : py loc := fun st =>
  let at_loc := fresh (dom (objects st)) in
  Some (at_loc, {| objects := <[at_loc := l]> (objects st);
                   DWARVES_at := DWARVES_at st;
                   PREFIX_is := PREFIX_is st |}).

(** Reading the items of a list object, and [list.append]. *)
Definition list_items (at_loc : loc) : py (list str) := fun st =>
  match objects st !! at_loc with
  | Some l => Some (l, st)
  | None => None
  end.

Definition list_append (at_loc : loc) (x : str) : py unit := fun st =>
  match objects st !! at_loc with
  | Some l => Some (tt, {| objects := <[at_loc := l ++ [x]]> (objects st);
                           DWARVES_at := DWARVES_at st;
                           PREFIX_is := PREFIX_is st |})
  | None => None
  end.

(** Reading the global names. *)
Definition global_DWARVES : py loc := fun st => Some (DWARVES_at st, st).

Definition global_PREFIX : py str := fun st => Some (PREFIX_is st, st).

(** The loop of lines 22 to 26 over the list object [names]: [false] is
    the [return False] inside the loop, [true] the end of the loop. *)
Fixpoint names_loop (names : loc) (lines : list str) : py bool :=
  match lines with
  | [] => mret true
  | ln :: rest =>
      global_PREFIX ≫= fun p : str =>
      if negb (startswith ln p) then mret false
      else global_PREFIX ≫= fun p' : str =>
           list_append names (slice_from (length p') ln) ≫= fun _ : unit =>
           names_loop names rest
  end.

(** [verify] (lines 13 to 29), statement by statement: [lines] and [names]
    are new list objects, [DWARVES] and [PREFIX] are read from the
    globals each time they are named. *)
Definition verify_in (output : str) : py bool :=
  new_list (lines_of output) ≫= fun lines : loc =>
  list_items lines ≫= fun ls : list str =>
  global_DWARVES ≫= fun d : loc =>
  list_items d ≫= fun dl : list str =>
  if negb (bool_decide (length ls = length dl)) then mret false
  else new_list [] ≫= fun names : loc =>
       list_items lines ≫= fun ls' : list str =>
       names_loop names ls' ≫= fun completed : bool =>
       if negb completed then mret false
       else list_items names ≫= fun nl : list str =>
            global_DWARVES ≫= fun d' : loc =>
            list_items d' ≫= fun dl' : list str =>
            mret (bool_decide (Counter nl = Counter dl')).

(** One call of [verify] after another, each in the store the calls
    before it left. *)
Fixpoint calls (outputs : list str) : py (list bool) :=
  match outputs with
  | [] => mret []
  | output :: rest =>
      verify_in output ≫= fun b : bool =>
      calls rest ≫= fun bs : list bool =>
      mret (b :: bs)
  end.

(** The store when the module has been loaded (lines 5 to 10). *)
Definition module_init : store :=
  {| objects := {[ 0 := DWARVES ]}; DWARVES_at := 0; PREFIX_is := PREFIX |}.

(** [module_state st]: in [st] the two names are bound as the module
    bound them, and the list object of [DWARVES] holds what it held.
    [untouched st st']: [st'] binds the two names as [st] does and holds
    every object of [st] with the items it had; it may hold more objects. *)
Definition module_state (st : store) : Prop :=
  objects st !! DWARVES_at st = Some DWARVES /\ PREFIX_is st = PREFIX.

Definition untouched (st st' : store) : Prop :=
  objects st ⊆ objects st'
  /\ DWARVES_at st' = DWARVES_at st /\ PREFIX_is st' = PREFIX_is st.

(** ** The vocabulary of the claims *)

(** [blank s]: every character of [s] is whitespace. *)
Definition blank (s : str) : Prop := Forall (fun c => is_space c = true) s.

(** [one_line s]: no character of [s] is a line boundary. *)
Definition one_line (s : str) : Prop := Forall (fun c => is_linebreak c = false) s.

(** [line_start s1]: a line begins right after [s1].
    [line_end s2]: a line ends right before [s2]. *)
Definition line_start (s1 : str) : Prop :=
  match last s1 with Some b => is_linebreak b = true | None => True end.

Definition line_end (s2 : str) : Prop :=
  match s2 with b :: _ => is_linebreak b = true | [] => True end.

(** [blank_lines_added s s']: [s'] is [s] with whitespace put in, any
    number of times, each time where a line begins or where a line ends.
    Line breaks are whitespace, so this covers whole lines that are empty
    or hold only whitespace, put before, between or after the lines of
    [s]. *)
Inductive blank_lines_added : str -> str -> Prop :=
  | bla_done s : blank_lines_added s s
  | bla_more s1 w s2 s' :
      blank w -> line_start s1 \/ line_end s2 ->
      blank_lines_added (s1 ++ w ++ s2) s' ->
      blank_lines_added (s1 ++ s2) s'.

(** Two pending line parts that trim alike whatever follows them. *)
Definition same_trim (cur1 cur2 : str) : Prop :=
  forall x, strip (cur1 ++ x) = strip (cur2 ++ x).

(** How often [x] occurs in [l], and equality of two lists as multisets:
    the same labels with the same count each. *)
Definition occurrences (x : str) (l : list str) : nat :=
  length (filter (eq x) l).

Definition same_multiset (a b : list str) : Prop :=
  forall x, occurrences x a = occurrences x b.

(** A line that starts with the prefix. *)
Definition prefixed (ln : str) : Prop := PREFIX `prefix_of` ln.

(** The label of a line: the slice [ln[len(PREFIX):]]. *)
Definition label (ln : str) : str := slice_from (length PREFIX) ln.

(** A label that can be announced on a line of its own: it holds no line
    boundary and ends with a character that is not whitespace. *)
Definition tidy (d : str) : bool :=
  forallb (fun c => negb (is_linebreak c)) d
  && match last d with Some c => negb (is_space c) | None => false end.

(** The text the Go program is expected to print: one announcement per
    label, each terminated by a newline. *)
Definition announce (d : str) : str := PREFIX ++ d ++ [LF].

Definition render (labels : list str) : str := mjoin (announce <$> labels).

(** The text that holds the lines [ls], each followed by a newline: Python's
    ["".join(l + "\n" for l in ls)]. *)
Definition unlines (ls : list str) : str := mjoin ((fun l => l ++ [LF]) <$> ls).

(** The 14 lines the Go program is expected to print, in reference order. *)
Definition expected_lines : list str := app PREFIX <$> DWARVES.

(** ** Characters *)

Lemma is_linebreak_space c : is_linebreak c = true -> is_space c = true.
Proof.
  unfold is_linebreak, is_space.
  rewrite !orb_true_iff, !andb_true_iff, !N.leb_le, !N.eqb_eq. lia.
Qed.

Lemma LF_linebreak : is_linebreak LF = true.
Proof. reflexivity. Qed.

Lemma blank_app s t : blank (s ++ t) <-> blank s /\ blank t.
Proof. apply Forall_app. Qed.

Lemma blank_cons c s : blank (c :: s) <-> is_space c = true /\ blank s.
Proof. unfold blank. by rewrite Forall_cons. Qed.

(** ** Trimming *)

Lemma lstrip_blank s : blank s -> lstrip s = [].
Proof. induction 1 as [|c s Hc _ IH]; simpl; [done|by rewrite Hc]. Qed.

Lemma lstrip_nil_blank s : lstrip s = [] -> blank s.
Proof.
  induction s as [|c s IH]; simpl; [constructor|].
  destruct (is_space c) eqn:Hc; [|done].
  intros Hs. constructor; [exact Hc|exact (IH Hs)].
Qed.

Lemma lstrip_app_blank w s : blank w -> lstrip (w ++ s) = lstrip s.
Proof. induction 1 as [|c w Hc _ IH]; simpl; [done|by rewrite Hc]. Qed.

Lemma lstrip_app s t : lstrip s <> [] -> lstrip (s ++ t) = lstrip s ++ t.
Proof.
  induction s as [|c s IH]; simpl; [done|].
  destruct (is_space c); [exact IH|done].
Qed.

Lemma rstrip_snoc s c :
  rstrip (s ++ [c]) = if is_space c then rstrip s else s ++ [c].
Proof.
  unfold rstrip. rewrite reverse_snoc. simpl.
  destruct (is_space c); [done|].
  by rewrite reverse_cons, reverse_involutive.
Qed.

Lemma rstrip_app_blank s w : blank w -> rstrip (s ++ w) = rstrip s.
Proof.
  induction w as [|c w IH] using rev_ind; intros Hw.
  - by rewrite app_nil_r.
  - apply blank_app in Hw as [Hw Hc]. inversion_clear Hc as [|? ? Hc' _].
    rewrite app_assoc, rstrip_snoc, Hc'. auto.
Qed.

Lemma strip_blank w : blank w -> strip w = [].
Proof. intros Hw. unfold strip. by rewrite lstrip_blank. Qed.

Lemma strip_app_blank_l w s : blank w -> strip (w ++ s) = strip s.
Proof. intros Hw. unfold strip. by rewrite lstrip_app_blank. Qed.

Lemma strip_app_blank_r s w : blank w -> strip (s ++ w) = strip s.
Proof.
  intros Hw. unfold strip. destruct (lstrip s) as [|c r] eqn:Hs.
  - apply lstrip_nil_blank in Hs.
    rewrite lstrip_blank; [done|]. by apply blank_app.
  - rewrite lstrip_app, Hs by (by rewrite Hs). by apply rstrip_app_blank.
Qed.

Lemma rstrip_last s c : is_space c = false -> rstrip (s ++ [c]) = s ++ [c].
Proof. intros Hc. by rewrite rstrip_snoc, Hc. Qed.

(** A string that begins and ends with a character that is not whitespace
    is left as it is. *)
Lemma strip_clean c s d :
  is_space c = false -> is_space d = false ->
  strip (c :: s ++ [d]) = c :: s ++ [d].
Proof.
  intros Hc Hd. unfold strip. simpl. rewrite Hc.
  by rewrite (app_comm_cons s [d] c), rstrip_last.
Qed.

Lemma rstrip_ends s :
  rstrip s = [] \/ exists y c, rstrip s = y ++ [c] /\ is_space c = false.
Proof.
  induction s as [|c s IH] using rev_ind; [by left|].
  rewrite rstrip_snoc. destruct (is_space c) eqn:Hc; [done|].
  right. by exists s, c.
Qed.

Lemma strip_ends s :
  strip s <> [] -> exists y c, strip s = y ++ [c] /\ is_space c = false.
Proof. unfold strip. by destruct (rstrip_ends (lstrip s)). Qed.

(** ** Lines *)

Lemma announced_app a b : announced (a ++ b) = announced a ++ announced b.
Proof. unfold announced. by rewrite filter_app, fmap_app. Qed.

Lemma announced_cons l ls : announced (l :: ls) = announced [l] ++ announced ls.
Proof. apply (announced_app [l] ls). Qed.

Lemma announced_one l :
  announced [l] = match strip l with [] => [] | _ :: _ => [strip l] end.
Proof.
  unfold announced. rewrite filter_cons, filter_nil.
  destruct (decide (strip l <> [])) as [H|H].
  - simpl. by destruct (strip l).
  - apply dec_stable in H. by rewrite H.
Qed.

Lemma announced_blank l : blank l -> announced [l] = [].
Proof. intros Hl. by rewrite announced_one, strip_blank. Qed.

Lemma announced_pending cur :
  announced (match cur with [] => [] | _ :: _ => [cur] end) = announced [cur].
Proof. by destruct cur. Qed.

Lemma after_break_LF s : after_break LF s = s.
Proof. by destruct s. Qed.

Lemma splitlines_LF s : splitlines (LF :: s) = [] :: splitlines s.
Proof. unfold splitlines. simpl. by rewrite after_break_LF. Qed.

(** Whether a carriage return and the line feed after it count as one
    line break or as two makes no difference to the announced lines. *)
Lemma after_break_announced c rest :
  announced (splitlines (after_break c rest)) = announced (splitlines rest).
Proof.
  destruct rest as [|c' rest]; simpl; [done|].
  destruct ((c =? CR)%N && (c' =? LF)%N) eqn:E; [|done].
  apply andb_true_iff in E as [_ ->%N.eqb_eq].
  by rewrite splitlines_LF, announced_cons.
Qed.

Lemma splitlines_from_break cur c rest :
  is_linebreak c = true ->
  announced (splitlines_from cur (c :: rest))
  = announced [cur] ++ announced (splitlines rest).
Proof.
  intros Hc. simpl. rewrite Hc, announced_cons.
  f_equal. apply after_break_announced.
Qed.

Lemma splitlines_from_line_end cur s2 :
  line_end s2 ->
  announced (splitlines_from cur s2)
  = announced [cur] ++ announced (splitlines s2).
Proof.
  destruct s2 as [|b s2]; intros H.
  - simpl. by rewrite announced_pending, app_nil_r.
  - rewrite (splitlines_from_break cur), (splitlines_from_break []) by done.
    by rewrite (announced_blank []) by constructor.
Qed.

Lemma same_trim_announced cur1 cur2 :
  same_trim cur1 cur2 -> announced [cur1] = announced [cur2].
Proof.
  intros H. specialize (H []). rewrite !app_nil_r in H.
  by rewrite !announced_one, H.
Qed.

Lemma same_trim_snoc cur1 cur2 c :
  same_trim cur1 cur2 -> same_trim (cur1 ++ [c]) (cur2 ++ [c]).
Proof. intros H x. rewrite <-!app_assoc. apply H. Qed.

Lemma splitlines_from_same_trim s : forall cur1 cur2,
  same_trim cur1 cur2 ->
  announced (splitlines_from cur1 s) = announced (splitlines_from cur2 s).
Proof.
  induction s as [|c s IH]; intros cur1 cur2 H; simpl.
  - rewrite !announced_pending. by apply same_trim_announced.
  - destruct (is_linebreak c).
    + rewrite (announced_cons cur1), (announced_cons cur2).
      f_equal. by apply same_trim_announced.
    + apply IH. by apply same_trim_snoc.
Qed.

(** Whitespace at the start of the text is not seen. *)
Lemma lines_lead_space c s :
  is_space c = true ->
  announced (splitlines (c :: s)) = announced (splitlines s).
Proof.
  intros Hc. unfold splitlines at 1. destruct (is_linebreak c) eqn:Hb.
  - rewrite splitlines_from_break by done.
    by rewrite announced_blank by constructor.
  - simpl. rewrite Hb. apply splitlines_from_same_trim.
    intros x. apply (strip_app_blank_l [c]). by repeat constructor.
Qed.

Lemma lines_lead_blank w s :
  blank w -> announced (splitlines (w ++ s)) = announced (splitlines s).
Proof.
  induction 1 as [|c w Hc _ IH]; simpl; [done|].
  by rewrite lines_lead_space.
Qed.

(** Whitespace in front of the end of a line is not seen. *)
Lemma lines_trailing_blank w : forall cur s2,
  blank w -> line_end s2 ->
  announced (splitlines_from cur (w ++ s2)) = announced (splitlines_from cur s2).
Proof.
  induction w as [|c w IH]; intros cur s2 Hw Hs2; [done|].
  apply blank_cons in Hw as [Hc Hw]. simpl.
  destruct (is_linebreak c).
  - rewrite announced_cons, after_break_announced.
    rewrite (splitlines_from_line_end cur s2) by done.
    f_equal. by apply (IH []).
  - rewrite IH by done. rewrite !splitlines_from_line_end by done.
    f_equal. rewrite !announced_one.
    by rewrite (strip_app_blank_r cur [c]) by (by repeat constructor).
Qed.

(** Scanning a common beginning [s1] first does not tell apart two texts
    that announce the same lines after every pending line part. *)
Lemma lines_scan_congr s1 : forall cur X X',
  (forall cur', announced (splitlines_from cur' X)
                = announced (splitlines_from cur' X')) ->
  announced (splitlines_from cur (s1 ++ X))
  = announced (splitlines_from cur (s1 ++ X')).
Proof.
  induction s1 as [|a s1 IH]; intros cur X X' H; [apply H|].
  cbn [app splitlines_from]. destruct (is_linebreak a).
  - rewrite (announced_cons cur (splitlines_from _ (after_break a (s1 ++ X)))),
      (announced_cons cur (splitlines_from _ (after_break a (s1 ++ X')))).
    f_equal. rewrite !(after_break_announced a). by apply IH.
  - by apply IH.
Qed.

(** The announced lines do not change when whitespace, line breaks
    included, is put where a line begins or where a line ends. *)
Lemma lines_of_insert_blank s1 w s2 :
  blank w -> line_start s1 \/ line_end s2 ->
  lines_of (s1 ++ w ++ s2) = lines_of (s1 ++ s2).
Proof.
  intros Hw [H1|H2]; unfold lines_of, splitlines.
  - destruct s1 as [|a s1 _] using rev_ind.
    + rewrite !app_nil_l. by apply lines_lead_blank.
    + unfold line_start in H1. rewrite last_snoc in H1.
      rewrite <-!app_assoc. apply lines_scan_congr. intros cur.
      cbn [app]. rewrite !splitlines_from_break by done.
      f_equal. by apply lines_lead_blank.
  - apply lines_scan_congr. intros cur. by apply lines_trailing_blank.
Qed.

Lemma splitlines_from_line x : forall cur s,
  one_line x -> splitlines_from cur (x ++ LF :: s) = (cur ++ x) :: splitlines s.
Proof.
  induction x as [|c x IH]; intros cur s H; cbn [app splitlines_from].
  - by rewrite LF_linebreak, after_break_LF, app_nil_r.
  - apply Forall_cons in H as [Hc H]. rewrite Hc, IH by done.
    by rewrite <-app_assoc.
Qed.

Lemma lines_of_line x s :
  one_line x -> lines_of (x ++ LF :: s) = announced [x] ++ lines_of s.
Proof.
  intros H. unfold lines_of, splitlines.
  by rewrite splitlines_from_line, announced_cons.
Qed.

Lemma lines_of_length s :
  length (lines_of s)
  = length (filter (fun ln => strip ln <> []) (splitlines s)).
Proof. apply length_fmap. Qed.

Lemma lines_of_elem ln s :
  ln ∈ splitlines s -> strip ln <> [] -> strip ln ∈ lines_of s.
Proof.
  intros Hin Hne. apply list_elem_of_fmap. exists ln. split; [done|].
  by apply list_elem_of_filter.
Qed.

(** ** Counting *)

Lemma occurrences_cons x a l :
  occurrences x (a :: l)
  = if decide (x = a) then S (occurrences x l) else occurrences x l.
Proof. unfold occurrences. rewrite filter_cons. by destruct (decide (x = a)). Qed.

Lemma occurrences_app x a b :
  occurrences x (a ++ b) = occurrences x a + occurrences x b.
Proof. unfold occurrences. by rewrite filter_app, length_app. Qed.

Lemma occurrences_pos x l : 0 < occurrences x l <-> x ∈ l.
Proof.
  induction l as [|a l IH].
  { rewrite elem_of_nil. unfold occurrences. simpl. lia. }
  rewrite occurrences_cons, elem_of_cons.
  destruct (decide (x = a)); [intuition lia|tauto].
Qed.

Lemma foldl_count_up_lookup l : forall m x,
  foldl count_up m l !! x
  = match occurrences x l with
    | 0 => m !! x
    | S _ as n => Some (default 0 (m !! x) + n)
    end.
Proof.
  induction l as [|a l IH]; intros m x; simpl; [done|].
  rewrite IH, occurrences_cons. unfold count_up.
  destruct (decide (x = a)) as [->|Hne].
  - rewrite lookup_insert_eq. simpl.
    destruct (occurrences a l); f_equal; lia.
  - by rewrite lookup_insert_ne.
Qed.

Lemma Counter_lookup l x :
  Counter l !! x
  = match occurrences x l with 0 => None | S _ as n => Some n end.
Proof. unfold Counter. rewrite foldl_count_up_lookup. by destruct (occurrences x l). Qed.

(** Two counters are equal exactly when they count equal multisets. *)
Lemma Counter_eq a b : Counter a = Counter b <-> same_multiset a b.
Proof.
  split.
  - intros H x. apply (f_equal (fun m => m !! x)) in H.
    rewrite !Counter_lookup in H.
    destruct (occurrences x a), (occurrences x b); congruence.
  - intros H. apply map_eq. intros x. by rewrite !Counter_lookup, H.
Qed.

Lemma Permutation_same_multiset a b : a ≡ₚ b -> same_multiset a b.
Proof. intros H x. unfold occurrences. by rewrite H. Qed.

Lemma same_multiset_Permutation a : forall b, same_multiset a b -> a ≡ₚ b.
Proof.
  induction a as [|x a IH]; intros b H.
  - destruct b as [|y b]; [done|].
    specialize (H y). rewrite occurrences_cons in H.
    by destruct (decide (y = y)).
  - assert (x ∈ b) as (b1 & b2 & ->)%list_elem_of_split.
    { apply occurrences_pos. rewrite <-H, occurrences_cons.
      destruct (decide (x = x)); [lia|done]. }
    rewrite <-Permutation_middle. constructor. apply IH. intros y.
    specialize (H y).
    rewrite occurrences_cons, occurrences_app, occurrences_cons in H.
    rewrite occurrences_app. destruct (decide (y = x)); lia.
Qed.

(** ** The loop of the verifier *)

Lemma startswith_prefixed ln : startswith ln PREFIX = true <-> prefixed ln.
Proof. unfold startswith. apply bool_decide_eq_true. Qed.

Lemma collect_prefixed lines : forall names,
  Forall prefixed lines -> collect lines names = Some (names ++ (label <$> lines)).
Proof.
  induction lines as [|ln lines IH]; intros names H; simpl.
  - by rewrite app_nil_r.
  - apply Forall_cons in H as [Hln H].
    apply startswith_prefixed in Hln. rewrite Hln. simpl.
    rewrite IH by done. by rewrite <-app_assoc.
Qed.

Lemma collect_unprefixed lines : forall names,
  ~ Forall prefixed lines -> collect lines names = None.
Proof.
  induction lines as [|ln lines IH]; intros names H; simpl.
  - destruct H. constructor.
  - destruct (startswith ln PREFIX) eqn:Hln; [|done]. simpl.
    apply IH. intros Hl. apply H. constructor; [|done].
    by apply startswith_prefixed.
Qed.

Lemma label_prefixed d : label (PREFIX ++ d) = d.
Proof. apply drop_app_length. Qed.

Lemma prefixed_app d : prefixed (PREFIX ++ d).
Proof. by apply prefix_app_r. Qed.

Lemma label_occurs ln (lines : list str) :
  ln ∈ lines -> 0 < occurrences (label ln) (label <$> lines).
Proof. intros H. apply occurrences_pos, list_elem_of_fmap. by exists ln. Qed.

Lemma DWARVES_length : length DWARVES = 14.
Proof. reflexivity. Qed.

(** [verify] in terms of the announced lines. *)
Lemma verify_true s :
  verify s = true <->
  length (lines_of s) = 14 /\ Forall prefixed (lines_of s)
  /\ same_multiset (label <$> lines_of s) DWARVES.
Proof.
  unfold verify. rewrite DWARVES_length.
  case_bool_decide as Hlen; simpl; [|by intuition].
  destruct (decide (Forall prefixed (lines_of s))) as [Hp|Hp].
  - rewrite collect_prefixed by done. simpl.
    rewrite bool_decide_eq_true, Counter_eq. tauto.
  - rewrite collect_unprefixed by done. by intuition.
Qed.

Lemma verify_false s : verify s = false <-> ~ (verify s = true).
Proof. destruct (verify s); intuition congruence. Qed.

(** [verify] is a function of the announced lines alone. *)
Lemma verify_lines s s' : lines_of s = lines_of s' -> verify s = verify s'.
Proof. unfold verify. by intros ->. Qed.

Lemma verify_not_all_prefixed s :
  ~ Forall prefixed (lines_of s) -> verify s = false.
Proof. intros H. apply verify_false. rewrite verify_true. tauto. Qed.

Lemma bool_eq_true_iff (a b : bool) : (a = true <-> b = true) -> a = b.
Proof. destruct a, b; intuition congruence. Qed.

(** ** Well-formed output *)

Lemma DWARVES_tidy : Forall (fun d => tidy d = true) DWARVES.
Proof. repeat constructor. Qed.

Lemma DWARVES_elem_tidy d : d ∈ DWARVES -> tidy d = true.
Proof. apply (proj1 (Forall_forall _ _) DWARVES_tidy). Qed.

Lemma DWARVES_NoDup : NoDup DWARVES.
Proof. apply (bool_decide_unpack _). vm_compute. reflexivity. Qed.

Lemma DWARVES_once d : d ∈ DWARVES -> occurrences d DWARVES = 1.
Proof.
  revert d. apply Forall_forall.
  repeat (constructor; [vm_compute; reflexivity|]). constructor.
Qed.

Lemma DWARVES_no_lead_space d : d ∈ DWARVES -> head d <> Some SP.
Proof.
  revert d. apply Forall_forall.
  repeat (constructor; [vm_compute; discriminate|]). constructor.
Qed.

Lemma tidy_one_line d : tidy d = true -> one_line d.
Proof.
  intros [H _]%andb_true_iff. unfold one_line.
  induction d as [|c d IH]; [constructor|].
  simpl in H. apply andb_true_iff in H as [Hc H].
  constructor; [by apply negb_true_iff|auto].
Qed.

Lemma tidy_last d :
  tidy d = true -> exists d' c, d = d' ++ [c] /\ is_space c = false.
Proof.
  intros [_ H]%andb_true_iff. destruct d as [|c d' _] using rev_ind; [done|].
  rewrite last_snoc in H. exists d', c. split; [done|by apply negb_true_iff].
Qed.

Lemma tidy_Permutation p q :
  p ≡ₚ q -> Forall (fun d => tidy d = true) q -> Forall (fun d => tidy d = true) p.
Proof. by intros ->. Qed.

Lemma PREFIX_one_line : one_line PREFIX.
Proof. repeat constructor. Qed.

Lemma PREFIX_snoc : PREFIX = lit "Hi! My name is" ++ [SP].
Proof. reflexivity. Qed.

Lemma strip_tidy d : tidy d = true -> strip (PREFIX ++ d) = PREFIX ++ d.
Proof.
  intros (d' & c & -> & Hc)%tidy_last.
  change PREFIX with (72%N :: lit "i! My name is ").
  rewrite <-app_comm_cons, app_assoc. by apply strip_clean.
Qed.

Lemma lines_of_announce d s :
  tidy d = true -> lines_of (announce d ++ s) = (PREFIX ++ d) :: lines_of s.
Proof.
  intros Hd.
  replace (announce d ++ s) with ((PREFIX ++ d) ++ LF :: s)
    by (unfold announce; by rewrite <-!app_assoc).
  rewrite lines_of_line.
  - by rewrite announced_one, strip_tidy.
  - apply Forall_app. split; [apply PREFIX_one_line|by apply tidy_one_line].
Qed.

Lemma render_cons d p : render (d :: p) = announce d ++ render p.
Proof. reflexivity. Qed.

Lemma lines_of_render p s :
  Forall (fun d => tidy d = true) p ->
  lines_of (render p ++ s) = (app PREFIX <$> p) ++ lines_of s.
Proof.
  induction 1 as [|d p Hd _ IH]; [done|].
  by rewrite render_cons, fmap_cons, <-app_assoc, lines_of_announce, IH.
Qed.

Lemma lines_of_render_all p :
  Forall (fun d => tidy d = true) p -> lines_of (render p) = app PREFIX <$> p.
Proof.
  intros H. rewrite <-(app_nil_r (render p)), lines_of_render by done.
  apply app_nil_r.
Qed.

Lemma prefixed_lines (p : list str) : Forall prefixed (app PREFIX <$> p).
Proof. apply Forall_fmap, Forall_true. intros d. apply prefixed_app. Qed.

Lemma label_lines (p : list str) : label <$> (app PREFIX <$> p) = p.
Proof.
  rewrite <-list_fmap_compose. rewrite <-(list_fmap_id p) at 2.
  apply list_fmap_ext. intros _ d _. apply label_prefixed.
Qed.

(** Well-formed output is accepted exactly when its labels are the
    reference labels as a multiset. *)
Lemma verify_render p :
  Forall (fun d => tidy d = true) p ->
  verify (render p) = true <-> length p = 14 /\ same_multiset p DWARVES.
Proof.
  intros Hp. rewrite verify_true, lines_of_render_all by done.
  rewrite length_fmap, label_lines. pose proof (prefixed_lines p). tauto.
Qed.

(** ** The verifier: what it accepts *)

Example verify_reference : verify (render DWARVES) = true.
Proof. vm_compute. reflexivity. Qed.

(** C1: for every input, [verify] returns true if and only if (1) the
    number of lines that are not empty after trimming is 14, the size of
    the reference list, (2) every such line, trimmed, starts with the
    prefix, and (3) the labels that follow the prefix on these lines form
    the same multiset as the 14 reference labels: the same labels with the
    same count each. *)
Theorem verify_iff (output : str) :
  verify output = true <->
  length (filter (fun ln => strip ln <> []) (splitlines output)) = 14
  /\ length DWARVES = 14
  /\ (forall ln, ln ∈ splitlines output -> strip ln <> [] ->
        PREFIX `prefix_of` strip ln)
  /\ (forall d, occurrences d (label <$> lines_of output) = occurrences d DWARVES).
Proof.
  rewrite verify_true, lines_of_length.
  assert (Forall prefixed (lines_of output) <->
          forall ln, ln ∈ splitlines output -> strip ln <> [] ->
                     PREFIX `prefix_of` strip ln) as ->.
  { rewrite Forall_forall. split.
    - intros H ln Hin Hne. by apply H, lines_of_elem.
    - intros H ln (raw & -> & [Hne Hin]%list_elem_of_filter)%list_elem_of_fmap.
      by apply H. }
  pose proof DWARVES_length. unfold same_multiset. tauto.
Qed.

(** C2: for every permutation of the 14 reference labels, the text that
    announces each label on one correctly prefixed line, newline
    terminated, in that order, is accepted; and the order of the lines never
    matters: two inputs whose announced lines are permutations of each
    other get the same result. *)
Theorem verify_any_order :
  (forall p, p ≡ₚ DWARVES -> verify (render p) = true)
  /\ (forall s s', lines_of s ≡ₚ lines_of s' -> verify s = verify s').
Proof.
  split.
  - intros p Hp. apply verify_render.
    + by apply (tidy_Permutation _ _ Hp), DWARVES_tidy.
    + split; [by rewrite Hp|by apply Permutation_same_multiset].
  - intros s s' H. apply bool_eq_true_iff. rewrite !verify_true.
    assert (same_multiset (label <$> lines_of s) DWARVES
            <-> same_multiset (label <$> lines_of s') DWARVES) as ->.
    { assert (same_multiset (label <$> lines_of s) (label <$> lines_of s')) as E
        by (apply Permutation_same_multiset; by rewrite H).
      unfold same_multiset in *. split; intros H' x; [by rewrite <-E|by rewrite E]. }
    by rewrite H.
Qed.

Lemma verify_any_order_witness :
  reverse DWARVES ≡ₚ DWARVES /\ verify (render (reverse DWARVES)) = true.
Proof.
  split; [apply reverse_Permutation|].
  apply (proj1 verify_any_order). apply reverse_Permutation.
Defined.

(** C3: an input whose number of non-blank lines is not 14 is rejected
    whatever its lines hold.  In particular the 13 correct lines left when
    one reference label is omitted are rejected, and so are the 14 correct
    lines with one more non-blank line put anywhere among them. *)
Theorem verify_count :
  (forall s, length (filter (fun ln => strip ln <> []) (splitlines s)) <> 14 ->
     verify s = false)
  /\ (forall d p, d :: p ≡ₚ DWARVES -> verify (render p) = false)
  /\ (forall p1 p2 x, p1 ++ p2 ≡ₚ DWARVES -> one_line x -> strip x <> [] ->
       verify (render p1 ++ x ++ LF :: render p2) = false).
Proof.
  assert (forall s, length (lines_of s) <> 14 -> verify s = false) as Hcount.
  { intros s H. apply verify_false. rewrite verify_true. tauto. }
  split; [|split].
  - intros s H. apply Hcount. by rewrite lines_of_length.
  - intros d p Hp. apply Hcount.
    assert (Forall (fun d => tidy d = true) (d :: p)) as [_ Ht]%Forall_cons
      by apply (tidy_Permutation _ _ Hp), DWARVES_tidy.
    rewrite lines_of_render_all, length_fmap by done.
    apply Permutation_length in Hp. rewrite DWARVES_length in Hp.
    simpl in Hp. lia.
  - intros p1 p2 x Hp Hx Hne. apply Hcount.
    assert (Forall (fun d => tidy d = true) (p1 ++ p2)) as [H1 H2]%Forall_app
      by apply (tidy_Permutation _ _ Hp), DWARVES_tidy.
    rewrite lines_of_render, lines_of_line, lines_of_render_all by done.
    rewrite announced_one. apply Permutation_length in Hp.
    rewrite DWARVES_length, length_app in Hp.
    destruct (strip x); [done|]. rewrite !length_app, !length_fmap. simpl. lia.
Qed.

Lemma verify_count_witness :
  verify (render (tail DWARVES)) = false
  /\ verify (render DWARVES ++ lit "Hi! My name is Bilbo" ++ LF :: render [])
     = false.
Proof.
  destruct verify_count as (_ & Homit & Hextra). split.
  - apply (Homit (222%N :: lit "orinn")). reflexivity.
  - apply Hextra.
    + by rewrite app_nil_r.
    + repeat constructor.
    + vm_compute. discriminate.
Defined.

(** C4: for distinct reference labels A and B, 14 correctly prefixed lines
    in which A is announced twice and B not at all (the labels [q] are the
    reference labels with one B taken out and one A put in, in any order)
    are rejected: the line count is right, the counts per label are not. *)
Theorem verify_duplicate (A B : str) (q : list str) :
  A ∈ DWARVES -> B ∈ DWARVES -> A <> B ->
  B :: q ≡ₚ A :: DWARVES ->
  length q = 14 /\ occurrences A q = 2 /\ occurrences B q = 0
  /\ verify (render q) = false.
Proof.
  intros HA HB Hne Hq.
  pose proof (Permutation_same_multiset _ _ Hq) as Hocc.
  assert (occurrences A q = 2) as HAq.
  { specialize (Hocc A). rewrite !occurrences_cons, DWARVES_once in Hocc by done.
    destruct (decide (A = B)); [done|]. by destruct (decide (A = A)). }
  assert (occurrences B q = 0) as HBq.
  { specialize (Hocc B). rewrite !occurrences_cons, DWARVES_once in Hocc by done.
    destruct (decide (B = A)); [done|]. destruct (decide (B = B)); [lia|done]. }
  assert (length q = 14) as Hlen.
  { apply Permutation_length in Hq.
    rewrite !length_cons, DWARVES_length in Hq. lia. }
  repeat split; try done.
  apply verify_false. rewrite verify_render.
  - intros [_ H]. specialize (H B). rewrite HBq, DWARVES_once in H; done.
  - assert (Forall (fun d => tidy d = true) (B :: q)) as [_ Ht]%Forall_cons; [|done].
    rewrite Hq. constructor; [|apply DWARVES_tidy].
    by apply DWARVES_elem_tidy.
Qed.

Lemma verify_duplicate_witness :
  verify (render (lit "Balin" :: lit "Balin" :: drop 2 DWARVES)) = false.
Proof.
  apply (verify_duplicate (lit "Balin") (222%N :: lit "orinn")).
  - apply (bool_decide_unpack _). vm_compute. reflexivity.
  - apply (bool_decide_unpack _). vm_compute. reflexivity.
  - vm_compute. discriminate.
  - apply perm_swap.
Defined.

(** C5: an input with at least one non-blank line that, once trimmed, does
    not start with the prefix is rejected, whatever else the line holds
    (a valid reference label included). *)
Theorem verify_unprefixed (output ln : str) :
  ln ∈ splitlines output -> strip ln <> [] ->
  startswith (strip ln) PREFIX = false ->
  verify output = false.
Proof.
  intros Hin Hne Hp. apply verify_not_all_prefixed.
  rewrite Forall_forall. intros Hall.
  assert (prefixed (strip ln)) as H by (by apply Hall, lines_of_elem).
  apply startswith_prefixed in H. congruence.
Qed.

Lemma verify_unprefixed_witness :
  verify ((222%N :: lit "orinn") ++ LF :: render (tail DWARVES)) = false.
Proof.
  apply (verify_unprefixed _ (222%N :: lit "orinn")).
  - apply (bool_decide_unpack _). vm_compute. reflexivity.
  - vm_compute. discriminate.
  - vm_compute. reflexivity.
Defined.

(** ** The verifier: whitespace *)

(** C6: putting additional lines that are empty or hold only whitespace
    before, between or after the lines of an input changes neither the
    announced lines nor the result of [verify]: such lines are filtered
    out before the count and never reach the prefix check.  First for any
    number of insertions, then for one whitespace-only line [w] with its
    line break [b] put where a line begins (before the first line or
    between two lines), and for one put after the end of the text. *)
Theorem blank_lines_ignored :
  (forall s s', blank_lines_added s s' ->
     lines_of s' = lines_of s /\ verify s' = verify s)
  /\ (forall s1 s2 w b, blank w -> is_linebreak b = true -> line_start s1 ->
       verify (s1 ++ (w ++ [b]) ++ s2) = verify (s1 ++ s2))
  /\ (forall s w b, blank w -> is_linebreak b = true ->
       verify (s ++ b :: w) = verify s).
Proof.
  split; [|split].
  - intros s s' H.
    assert (lines_of s' = lines_of s) as Hl.
    { induction H as [s|s1 w s2 s' Hw Hb _ IH]; [done|].
      by rewrite IH, lines_of_insert_blank. }
    split; [done|by apply verify_lines].
  - intros s1 s2 w b Hw Hb Hs1. apply verify_lines, lines_of_insert_blank.
    + apply blank_app. split; [done|].
      apply blank_cons. split; [by apply is_linebreak_space|constructor].
    + by left.
  - intros s w b Hw Hb. apply verify_lines.
    assert (blank (b :: w)) as Hbw
      by (apply blank_cons; split; [by apply is_linebreak_space|done]).
    pose proof (lines_of_insert_blank s (b :: w) [] Hbw (or_intror I)) as H.
    by rewrite !app_nil_r in H.
Qed.

Lemma blank_lines_ignored_witness :
  verify (announce (222%N :: lit "orinn") ++ [SP; 9%N; CR; LF]
          ++ render (tail DWARVES))
  = verify (announce (222%N :: lit "orinn") ++ render (tail DWARVES))
  /\ verify (render DWARVES ++ [LF; SP; SP]) = verify (render DWARVES).
Proof.
  destruct blank_lines_ignored as (Hany & _ & Hafter). split.
  - apply Hany.
    apply (bla_more (announce (222%N :: lit "orinn")) [SP; 9%N; CR; LF]
             (render (tail DWARVES))).
    + repeat constructor.
    + left. reflexivity.
    + apply bla_done.
  - apply (Hafter (render DWARVES) [SP; SP] LF).
    + repeat constructor.
    + reflexivity.
Defined.

(** C8, counterexample.  The trailing space: the 14 correct lines, the
    first with a space after its label, are accepted.  The leading space:
    the line with a space between the prefix and the label Balin passes
    the prefix match. *)
Lemma spaces_counterexample :
  verify (PREFIX ++ (222%N :: lit "orinn") ++ [SP] ++ LF :: render (tail DWARVES))
  = true
  /\ startswith (strip (PREFIX ++ [SP] ++ lit "Balin")) PREFIX = true.
Proof. split; vm_compute; reflexivity. Qed.

(** C8, amended: each line is trimmed of all surrounding whitespace before
    the prefix match.  Spaces added after the label, at the end of the
    line, are trimmed away: [verify] returns what it returns without them.
    Spaces added in front of the label, between the prefix and the label,
    stay: the line passes the prefix match, its label begins with a space
    and is no reference label, and [verify] returns false. *)
Theorem spaces_around_label :
  (forall s1 s2 d k, line_end s2 ->
     verify (s1 ++ PREFIX ++ d ++ replicate k SP ++ s2)
     = verify (s1 ++ PREFIX ++ d ++ s2))
  /\ (forall output ln d k,
       ln ∈ splitlines output ->
       strip ln = PREFIX ++ replicate (S k) SP ++ d ->
       startswith (strip ln) PREFIX = true /\ verify output = false).
Proof.
  split.
  - intros s1 s2 d k Hs2. apply verify_lines.
    rewrite !(app_assoc PREFIX), !(app_assoc s1).
    apply lines_of_insert_blank; [|by right].
    apply Forall_replicate. reflexivity.
  - intros output ln d k Hin Hln.
    assert (strip ln <> []) as Hne by (by rewrite Hln).
    pose proof (lines_of_elem _ _ Hin Hne) as Hl.
    split; [apply startswith_prefixed; rewrite Hln; apply prefixed_app|].
    apply verify_false. rewrite verify_true. intros (_ & _ & Hm).
    apply label_occurs in Hl. rewrite Hm, Hln, label_prefixed in Hl.
    apply occurrences_pos, DWARVES_no_lead_space in Hl. by apply Hl.
Qed.

Lemma spaces_around_label_witness :
  verify (PREFIX ++ lit "Balin" ++ [SP; SP] ++ LF :: render (tail DWARVES))
  = verify (PREFIX ++ lit "Balin" ++ LF :: render (tail DWARVES))
  /\ verify (PREFIX ++ [SP; SP] ++ lit "Balin" ++ LF :: render (tail DWARVES))
     = false.
Proof.
  split.
  - apply (proj1 spaces_around_label [] (LF :: render (tail DWARVES))
             (lit "Balin") 2).
    reflexivity.
  - apply (proj2 spaces_around_label _ (PREFIX ++ [SP; SP] ++ lit "Balin")
             (lit "Balin") 1).
    + apply (bool_decide_unpack _). vm_compute. reflexivity.
    + vm_compute. reflexivity.
Defined.

(** C10: every label extracted from a line that passes the prefix check is
    not empty and does not end with whitespace.  A line that holds the
    prefix alone, followed by whitespace or by nothing, is trimmed to the
    prefix without its final space and fails the prefix check; an input
    with such a line is rejected. *)
Theorem label_not_empty :
  (forall output ln, ln ∈ lines_of output -> startswith ln PREFIX = true ->
     label ln <> []
     /\ exists y c, label ln = y ++ [c] /\ is_space c = false)
  /\ (forall output ln w, ln ∈ splitlines output -> blank w ->
       ln = PREFIX ++ w ->
       strip ln <> [] /\ startswith (strip ln) PREFIX = false
       /\ verify output = false).
Proof.
  split.
  - intros output ln Hin Hp.
    apply list_elem_of_fmap in Hin as (raw & -> & [Hne _]%list_elem_of_filter).
    apply startswith_prefixed in Hp as [k Hk].
    destruct (strip_ends raw Hne) as (y & c & Hy & Hc).
    rewrite Hk, label_prefixed. rewrite Hk in Hy.
    destruct k as [|c' k _] using rev_ind.
    + rewrite app_nil_r, PREFIX_snoc in Hy.
      apply app_inj_tail in Hy as [_ <-]. done.
    + rewrite app_assoc in Hy. apply app_inj_tail in Hy as [_ <-].
      split; [by destruct k|by exists k, c'].
  - intros output ln w Hin Hw ->.
    assert (strip (PREFIX ++ w) = lit "Hi! My name is") as Hs.
    { by rewrite strip_app_blank_r. }
    assert (strip (PREFIX ++ w) <> []) as Hne by (by rewrite Hs).
    assert (startswith (strip (PREFIX ++ w)) PREFIX = false) as Hp
      by (by rewrite Hs).
    repeat split; try done.
    apply verify_not_all_prefixed. rewrite Forall_forall. intros Hall.
    assert (prefixed (strip (PREFIX ++ w))) as H
      by (by apply Hall, lines_of_elem).
    apply startswith_prefixed in H. congruence.
Qed.

Lemma label_not_empty_witness :
  verify ((PREFIX ++ [SP; SP]) ++ LF :: render (tail DWARVES)) = false.
Proof.
  destruct label_not_empty as [_ Hbare].
  apply (Hbare _ (PREFIX ++ [SP; SP]) [SP; SP]).
  - apply (bool_decide_unpack _). vm_compute. reflexivity.
  - repeat constructor.
  - reflexivity.
Defined.

(** ** The reference list *)

Lemma untouched_refl st : untouched st st.
Proof. by split. Qed.

Lemma untouched_trans st1 st2 st3 :
  untouched st1 st2 -> untouched st2 st3 -> untouched st1 st3.
Proof.
  intros (H1 & H2 & H3) (H4 & H5 & H6).
  split; [by transitivity (objects st2)|]. split; congruence.
Qed.

Lemma untouched_module_state st st' :
  untouched st st' -> module_state st -> module_state st'.
Proof.
  intros (Ho & Hd & Hp) [HD HP]. split; [|congruence].
  rewrite Hd. by apply (lookup_weaken (objects st)).
Qed.

Lemma py_bind_Some {A B} (m : py A) (k : A -> py B) st a st' :
  m st = Some (a, st') -> (m ≫= k) st = k a st'.
Proof. intros H. unfold mbind, py_bind. by rewrite H. Qed.

Lemma new_list_fresh l st :
  exists at_loc st',
    new_list l st = Some (at_loc, st')
    /\ objects st !! at_loc = None
    /\ objects st' !! at_loc = Some l
    /\ untouched st st'.
Proof.
  eexists _, _. split; [reflexivity|]. simpl.
  assert (objects st !! fresh (dom (objects st)) = None) as Hf
    by apply not_elem_of_dom, is_fresh.
  split; [done|]. split; [apply lookup_insert_eq|].
  split; [by apply insert_subseteq|done].
Qed.

Lemma list_items_Some at_loc l st :
  objects st !! at_loc = Some l -> list_items at_loc st = Some (l, st).
Proof. intros H. unfold list_items. by rewrite H. Qed.

(** Appending to a list object that the store [st0] did not hold leaves
    the objects of [st0] as they were. *)
Lemma list_append_new st0 st at_loc acc x :
  untouched st0 st -> objects st0 !! at_loc = None ->
  objects st !! at_loc = Some acc ->
  exists st', list_append at_loc x st = Some (tt, st')
    /\ untouched st0 st' /\ objects st' !! at_loc = Some (acc ++ [x]).
Proof.
  intros (Ho & Hd & Hp) Hnew Hacc. unfold list_append. rewrite Hacc.
  eexists. split; [reflexivity|]. simpl.
  split; [|apply lookup_insert_eq].
  split; [by apply insert_subseteq_r|done].
Qed.

Lemma names_loop_spec names lines : forall st0 st acc,
  untouched st0 st -> PREFIX_is st0 = PREFIX ->
  objects st0 !! names = None -> objects st !! names = Some acc ->
  exists st',
    names_loop names lines st = Some (bool_decide (Forall prefixed lines), st')
    /\ untouched st0 st'
    /\ (Forall prefixed lines ->
        objects st' !! names = Some (acc ++ (label <$> lines))).
Proof.
  induction lines as [|ln rest IH]; intros st0 st acc Hu HP Hnew Hacc.
  - exists st. split; [done|]. split; [done|]. intros _. by rewrite app_nil_r.
  - assert (PREFIX_is st = PREFIX) as HPst by (destruct Hu as (_ & _ & ->); done).
    cbn [names_loop].
    rewrite (py_bind_Some global_PREFIX _ st PREFIX st)
      by (unfold global_PREFIX; by rewrite HPst).
    destruct (startswith ln PREFIX) eqn:Hln; simpl.
    + apply startswith_prefixed in Hln.
      rewrite (py_bind_Some global_PREFIX _ st PREFIX st)
        by (unfold global_PREFIX; by rewrite HPst).
      destruct (list_append_new st0 st names acc (label ln) Hu Hnew Hacc)
        as (st1 & Happ & Hu1 & Hacc1).
      rewrite (py_bind_Some _ _ st tt st1) by exact Happ.
      destruct (IH st0 st1 _ Hu1 HP Hnew Hacc1) as (st' & Hrun & Hu' & Hres).
      exists st'. split; [|split; [done|]].
      * rewrite Hrun. do 2 f_equal. apply bool_decide_ext.
        rewrite Forall_cons. tauto.
      * intros [_ Hrest]%Forall_cons.
        rewrite Hres by done. by rewrite <-app_assoc.
    + exists st. split; [|split; [done|]].
      * unfold mret, py_ret. do 2 f_equal. symmetry.
        apply bool_decide_eq_false. intros [H _]%Forall_cons.
        apply startswith_prefixed in H. congruence.
      * intros [H _]%Forall_cons. apply startswith_prefixed in H. congruence.
Qed.

(** A call of [verify] in a store where the module's names are bound as
    the module bound them returns what the function [verify] returns, and
    leaves every object and both names as they were. *)
Lemma verify_in_spec output st :
  module_state st ->
  exists st', verify_in output st = Some (verify output, st')
              /\ untouched st st'.
Proof.
  intros [HD HP]. unfold verify_in.
  destruct (new_list_fresh (lines_of output) st)
    as (lines & st1 & Hnew1 & Hf1 & Hl1 & Hu1).
  rewrite (py_bind_Some _ _ st lines st1) by exact Hnew1.
  rewrite (py_bind_Some _ _ st1 _ st1) by (by apply list_items_Some).
  assert (module_state st1) as [HD1 HP1]
    by (by apply (untouched_module_state st)).
  rewrite (py_bind_Some global_DWARVES _ st1 (DWARVES_at st1) st1) by done.
  rewrite (py_bind_Some _ _ st1 _ st1) by (by apply list_items_Some).
  unfold verify. destruct (bool_decide (length _ = length DWARVES)); simpl;
    [|by exists st1].
  destruct (new_list_fresh [] st1) as (names & st2 & Hnew2 & Hf2 & Hl2 & Hu2).
  rewrite (py_bind_Some _ _ st1 names st2) by exact Hnew2.
  assert (objects st2 !! lines = Some (lines_of output)) as Hl1'
    by (destruct Hu2 as (Ho & _); by apply (lookup_weaken (objects st1))).
  rewrite (py_bind_Some _ _ st2 _ st2) by (by apply list_items_Some).
  destruct (names_loop_spec names (lines_of output) st1 st2 [] Hu2 HP1 Hf2 Hl2)
    as (st3 & Hrun & Hu3 & Hres).
  rewrite (py_bind_Some _ _ st2 _ st3) by exact Hrun.
  assert (untouched st st3) as Hu by (by apply (untouched_trans st st1)).
  destruct (decide (Forall prefixed (lines_of output))) as [Hp|Hp].
  - rewrite bool_decide_eq_true_2 by done. simpl.
    rewrite collect_prefixed by done. simpl.
    rewrite (py_bind_Some _ _ st3 _ st3)
      by (apply list_items_Some, Hres, Hp).
    assert (module_state st3) as [HD3 HP3]
      by (by apply (untouched_module_state st1)).
    rewrite (py_bind_Some global_DWARVES _ st3 (DWARVES_at st3) st3) by done.
    rewrite (py_bind_Some _ _ st3 _ st3) by (by apply list_items_Some).
    by exists st3.
  - rewrite bool_decide_eq_false_2 by done. simpl.
    rewrite collect_unprefixed by done. by exists st3.
Qed.

Lemma calls_spec outputs : forall st,
  module_state st ->
  exists st', calls outputs st = Some (verify <$> outputs, st')
              /\ untouched st st'.
Proof.
  induction outputs as [|output rest IH]; intros st Hst.
  - exists st. split; [done|apply untouched_refl].
  - destruct (verify_in_spec output st Hst) as (st1 & Hrun & Hu1).
    destruct (IH st1) as (st2 & Hrest & Hu2);
      [by apply (untouched_module_state st)|].
    exists st2. split; [|by apply (untouched_trans st st1)].
    cbn [calls]. rewrite (py_bind_Some _ _ st _ st1) by exact Hrun.
    by rewrite (py_bind_Some _ _ st1 _ st2) by exact Hrest.
Qed.

(** The store is not fixed by the model: appending to the list object of
    [DWARVES] is a statement like any other, and it leaves a store in which
    the reference list is no longer what the module made it.  And a call
    of [verify] does change the store: it leaves the two list objects it
    built, beside the reference list.  (Python frees them when the call
    returns; the store keeps them, so later calls are shown not to depend
    even on what it keeps.) *)
Lemma DWARVES_can_change :
  exists st', list_append (DWARVES_at module_init) (lit "Bilbo") module_init
              = Some (tt, st')
              /\ ~ module_state st'.
Proof.
  eexists. split; [reflexivity|]. intros [H _]. vm_compute in H.
  discriminate.
Qed.

Example calls_in_turn :
  fst <$> calls [render DWARVES; render (tail DWARVES); render DWARVES]
            module_init
  = Some [true; false; true].
Proof. vm_compute. reflexivity. Qed.

Example verify_in_leaves_objects :
  (fun r => (r.1, size (objects r.2))) <$> verify_in (render DWARVES) module_init
  = Some (true, 3).
Proof. vm_compute. reflexivity. Qed.

(** C9: the reference list holds exactly 14 labels, pairwise distinct, so
    an accepted input announces each reference label exactly once.  The
    reference list and the prefix are constants of the module: from the
    store the loaded module leaves, and from any store that binds the two
    names as it does, a call of [verify] returns what the function
    [verify] returns for its input, rebinds neither name and changes no
    object that was there, the list object of [DWARVES] included.  So any
    number of calls, one after another, return each the result of its own
    input, and two calls on the same input return the same result: no
    call sees what an earlier call did. *)
Theorem reference_exactly_once :
  length DWARVES = 14 /\ NoDup DWARVES
  /\ (forall output d, verify output = true -> d ∈ DWARVES ->
       occurrences d (label <$> lines_of output) = 1)
  /\ module_state module_init
  /\ (forall st output, module_state st ->
       exists st', verify_in output st = Some (verify output, st')
                   /\ untouched st st' /\ module_state st')
  /\ (forall st outputs, module_state st ->
       exists st', calls outputs st = Some (verify <$> outputs, st')
                   /\ untouched st st' /\ module_state st')
  /\ (forall st output, module_state st ->
       exists b st1 st2, verify_in output st = Some (b, st1)
                         /\ verify_in output st1 = Some (b, st2)).
Proof.
  split; [reflexivity|]. split; [apply DWARVES_NoDup|]. split.
  { intros output d (_ & _ & Hm)%verify_true Hd.
    by rewrite Hm, DWARVES_once. }
  split; [by split|]. split; [|split].
  - intros st output Hst.
    destruct (verify_in_spec output st Hst) as (st' & Hrun & Hu).
    exists st'. split; [done|]. split; [done|].
    by apply (untouched_module_state st).
  - intros st outputs Hst.
    destruct (calls_spec outputs st Hst) as (st' & Hrun & Hu).
    exists st'. split; [done|]. split; [done|].
    by apply (untouched_module_state st).
  - intros st output Hst.
    destruct (verify_in_spec output st Hst) as (st1 & Hrun1 & Hu1).
    destruct (verify_in_spec output st1) as (st2 & Hrun2 & _);
      [by apply (untouched_module_state st)|].
    by exists (verify output), st1, st2.
Qed.

Lemma reference_exactly_once_witness :
  occurrences (lit "Balin") (label <$> lines_of (render DWARVES)) = 1
  /\ exists st',
       calls [render DWARVES; render (tail DWARVES); render DWARVES] module_init
       = Some (verify <$> [render DWARVES; render (tail DWARVES); render DWARVES],
               st')
       /\ untouched module_init st' /\ module_state st'.
Proof.
  destruct reference_exactly_once as (_ & _ & Honce & Hinit & _ & Hcalls & _).
  split.
  - apply Honce.
    + vm_compute. reflexivity.
    + apply (bool_decide_unpack _). vm_compute. reflexivity.
  - apply Hcalls. exact Hinit.
Defined.

(** ** The program: what it prints *)

(** C7: however the invocation ends, the program prints exactly one line,
    [Yes] or [No].  When the invocation raises an exception (launch
    failure and timeout included) or the process exits with a status other
    than zero, it prints [No] and does not call [verify]; otherwise it
    calls [verify] on the captured standard output and prints [Yes]
    exactly when [verify] returns true. *)
Theorem main_prints_one_line (run : outcome) :
  (printed (trace run) = ["Yes"%string] \/ printed (trace run) = ["No"%string])
  /\ (forall e, run = Raised e -> trace run = [Printed "No"])
  /\ (forall proc, run = Returned proc -> returncode proc <> 0%Z ->
       trace run = [Printed "No"])
  /\ (forall proc, run = Returned proc -> returncode proc = 0%Z ->
       verified (trace run) = [stdout proc]
       /\ printed (trace run)
          = [if verify (stdout proc) then "Yes"%string else "No"%string]
       /\ (printed (trace run) = ["Yes"%string] <-> verify (stdout proc) = true)).
Proof.
  unfold trace. destruct run as [e|[rc out]]; simpl.
  - split; [by right|]. repeat split; intros; done.
  - destruct (Z.eqb_spec rc 0) as [->|Hrc]; simpl.
    + split; [destruct (verify out); [by left|by right]|].
      repeat split; intros; simplify_eq/=; try done.
      * by destruct (verify out).
      * by destruct (verify out).
    + split; [by right|]. repeat split; intros; simplify_eq/=; done.
Qed.

Lemma main_prints_one_line_witness :
  trace (Returned {| returncode := 1; stdout := render DWARVES |})
  = [Printed "No"]
  /\ printed (trace (Returned {| returncode := 0; stdout := render DWARVES |}))
     = ["Yes"%string].
Proof.
  split.
  - destruct (main_prints_one_line
                (Returned {| returncode := 1; stdout := render DWARVES |}))
      as (_ & _ & Hfail & _).
    apply (Hfail _ eq_refl). discriminate.
  - destruct (main_prints_one_line
                (Returned {| returncode := 0; stdout := render DWARVES |}))
      as (_ & _ & _ & Hok).
    apply (Hok _ eq_refl); [reflexivity|]. vm_compute. reflexivity.
Defined.

(** ** More on trimming *)

Lemma lstrip_split s : exists l, s = l ++ lstrip s /\ blank l.
Proof.
  induction s as [|c s (l & Hl & Hb)]; [exists []; split; [done|constructor]|].
  simpl. destruct (is_space c) eqn:Hc.
  - exists (c :: l). split; [by rewrite Hl at 1|by apply blank_cons].
  - exists []. split; [done|constructor].
Qed.

Lemma lstrip_head s c r : lstrip s = c :: r -> is_space c = false.
Proof.
  induction s as [|a s IH]; simpl; [done|].
  destruct (is_space a) eqn:Ha; [done|]. by intros [= <- _].
Qed.

Lemma rstrip_split s : exists r, s = rstrip s ++ r /\ blank r.
Proof.
  induction s as [|c s (r & Hr & Hb)] using rev_ind;
    [exists []; split; [done|constructor]|].
  rewrite rstrip_snoc. destruct (is_space c) eqn:Hc.
  - exists (r ++ [c]). split; [by rewrite app_assoc, <-Hr|].
    apply blank_app. split; [done|]. apply blank_cons. split; [done|constructor].
  - exists []. split; [by rewrite app_nil_r|constructor].
Qed.

Lemma rstrip_cons c x : is_space c = false -> rstrip (c :: x) = c :: rstrip x.
Proof.
  intros Hc. induction x as [|d x IH] using rev_ind.
  - unfold rstrip. cbn. by rewrite Hc.
  - rewrite app_comm_cons, !rstrip_snoc, IH. by destruct (is_space d).
Qed.

Lemma strip_head s c r : strip s = c :: r -> is_space c = false.
Proof.
  unfold strip. destruct (lstrip s) as [|a t] eqn:Hs; [done|].
  pose proof (lstrip_head _ _ _ Hs) as Ha.
  rewrite rstrip_cons by done. by intros [= <- _].
Qed.

Lemma strip_split s :
  exists l r, s = l ++ strip s ++ r /\ blank l /\ blank r.
Proof.
  destruct (lstrip_split s) as (l & Hl & Hbl).
  destruct (rstrip_split (lstrip s)) as (r & Hr & Hbr).
  exists l, r. unfold strip. by rewrite <-Hr, <-Hl.
Qed.

(** A text that is empty, or begins and ends with characters that are not
    whitespace, is left as it is. *)
Lemma strip_fixed m :
  (forall c, head m = Some c -> is_space c = false) ->
  (forall c, last m = Some c -> is_space c = false) ->
  strip m = m.
Proof.
  intros Hh Hl. destruct m as [|c m]; [done|].
  unfold strip. simpl. rewrite (Hh c) by done.
  destruct m as [|d m _] using rev_ind.
  - unfold rstrip. cbn. by rewrite (Hh c).
  - rewrite app_comm_cons. apply rstrip_last, Hl.
    by rewrite app_comm_cons, last_snoc.
Qed.

Lemma strip_last s c : last (strip s) = Some c -> is_space c = false.
Proof.
  intros H. destruct (strip s) as [|a t] eqn:Hs; [done|].
  destruct (strip_ends s) as (y & d & Hy & Hd); [by rewrite Hs|].
  rewrite Hs in Hy. rewrite Hy, last_snoc in H. by injection H as <-.
Qed.

Lemma strip_idemp s : strip (strip s) = strip s.
Proof.
  apply strip_fixed.
  - intros c H. destruct (strip s) as [|a t] eqn:Hs; [done|].
    injection H as <-. by apply (strip_head s a t).
  - apply strip_last.
Qed.

Lemma strip_nil_blank s : strip s = [] -> blank s.
Proof.
  intros H. destruct (strip_split s) as (l & r & Hs & Hl & Hr).
  rewrite H in Hs. rewrite Hs. by apply blank_app.
Qed.

(** ** More on lines *)

Lemma splitlines_after_break c rest :
  splitlines rest = splitlines (after_break c rest)
  \/ splitlines rest = [] :: splitlines (after_break c rest).
Proof.
  destruct rest as [|c' rest]; simpl; [by left|].
  destruct ((c =? CR)%N && (c' =? LF)%N) eqn:E; [|by left].
  right. apply andb_true_iff in E as [_ ->%N.eqb_eq]. apply splitlines_LF.
Qed.

Lemma splitlines_from_one_line s : forall cur,
  one_line cur -> Forall one_line (splitlines_from cur s).
Proof.
  induction s as [|c s IH]; intros cur Hcur; simpl.
  - destruct cur; [constructor|]. constructor; [done|constructor].
  - destruct (is_linebreak c) eqn:Hc.
    + constructor; [done|].
      assert (Forall one_line (splitlines s)) as Hs by (apply IH; constructor).
      destruct (splitlines_after_break c s) as [E|E]; rewrite E in Hs; [done|].
      by apply Forall_cons in Hs as [_ Hs].
    + apply IH. apply Forall_app. split; [done|]. by repeat constructor.
Qed.

Lemma splitlines_from_concat s : forall cur,
  mjoin (splitlines_from cur s)
  = cur ++ filter (fun c => is_linebreak c = false) s.
Proof.
  induction s as [|c s IH]; intros cur.
  - rewrite filter_nil, app_nil_r. destruct cur; [done|]. apply app_nil_r.
  - rewrite filter_cons. cbn [splitlines_from].
    destruct (is_linebreak c) eqn:Hc.
    + destruct (decide (true = false)); [done|].
      change (mjoin (cur :: ?l)) with (cur ++ mjoin l). f_equal.
      rewrite <-(app_nil_l (filter _ s)), <-(IH []).
      pose proof (splitlines_after_break c s) as E. unfold splitlines in E.
      by destruct E as [->| ->].
    + destruct (decide (false = false)); [|done].
      by rewrite IH, <-app_assoc.
Qed.

Lemma unlines_cons l ls : unlines (l :: ls) = l ++ LF :: unlines ls.
Proof.
  unfold unlines. rewrite fmap_cons.
  change (mjoin (?x :: ?xs)) with (x ++ mjoin xs). by rewrite <-app_assoc.
Qed.

Lemma splitlines_unlines ls :
  Forall one_line ls -> splitlines (unlines ls) = ls.
Proof.
  induction 1 as [|l ls Hl _ IH]; [done|].
  rewrite unlines_cons. unfold splitlines at 1.
  by rewrite splitlines_from_line, IH.
Qed.

(** At a line break the announced lines of a text are those of the part
    before it, then those of the part after it. *)
Lemma lines_break_app s1 : forall cur b s2,
  is_linebreak b = true ->
  announced (splitlines_from cur (s1 ++ b :: s2))
  = announced (splitlines_from cur s1) ++ announced (splitlines s2).
Proof.
  induction s1 as [|a s1 IH]; intros cur b s2 Hb.
  - cbn [app]. rewrite splitlines_from_break by done.
    simpl. by rewrite announced_pending.
  - cbn [app splitlines_from]. destruct (is_linebreak a).
    + rewrite (announced_cons cur (splitlines_from _ (after_break a (s1 ++ b :: s2)))),
        (announced_cons cur (splitlines_from _ (after_break a s1))).
      rewrite <-app_assoc. f_equal. rewrite !(after_break_announced a).
      by apply IH.
    + by apply IH.
Qed.

Lemma strip_one_line s : one_line s -> one_line (strip s).
Proof.
  intros H. destruct (strip_split s) as (l & r & Hs & _).
  rewrite Hs in H. by apply Forall_app in H as [_ [H _]%Forall_app].
Qed.

(** What every announced line is like. *)
Lemma lines_of_inv ln s :
  ln ∈ lines_of s -> ln <> [] /\ one_line ln /\ strip ln = ln.
Proof.
  intros (raw & -> & [Hne Hin]%list_elem_of_filter)%list_elem_of_fmap.
  split; [done|]. split; [|apply strip_idemp].
  apply strip_one_line. revert Hin. apply Forall_forall.
  apply splitlines_from_one_line. constructor.
Qed.

Lemma announced_fixed (ls : list str) :
  Forall (fun ln => ln <> [] /\ strip ln = ln) ls -> announced ls = ls.
Proof.
  induction 1 as [|l ls [Hne Hl] _ IH]; [done|].
  rewrite announced_cons, IH, announced_one, Hl. by destruct l.
Qed.

Lemma prefixed_label ln : prefixed ln -> PREFIX ++ label ln = ln.
Proof. intros [k ->]. by rewrite label_prefixed. Qed.

Lemma prefixed_lines_labels (lines : list str) :
  Forall prefixed lines -> app PREFIX <$> (label <$> lines) = lines.
Proof.
  induction 1 as [|ln lines Hln _ IH]; [done|].
  by rewrite !fmap_cons, IH, prefixed_label.
Qed.

Lemma expected_verify_true s :
  verify s = true <-> lines_of s ≡ₚ expected_lines.
Proof.
  rewrite verify_true. unfold expected_lines. split.
  - intros (_ & Hp & Hm). apply same_multiset_Permutation in Hm.
    by rewrite <-(prefixed_lines_labels _ Hp), Hm.
  - intros H. split; [by rewrite H, length_fmap|]. split.
    + rewrite H. apply prefixed_lines.
    + apply Permutation_same_multiset. by rewrite H, label_lines.
Qed.

Lemma lines_of_blank output : blank output -> lines_of output = [].
Proof.
  intros H. unfold lines_of.
  by rewrite <-(app_nil_r output), lines_lead_blank.
Qed.

Lemma lines_of_break_app s1 b s2 :
  is_linebreak b = true -> lines_of (s1 ++ b :: s2) = lines_of s1 ++ lines_of s2.
Proof. intros Hb. unfold lines_of, splitlines. by apply lines_break_app. Qed.

Lemma verify_Permutation s s' : lines_of s ≡ₚ lines_of s' -> verify s = verify s'.
Proof.
  intros H. apply bool_eq_true_iff. by rewrite !expected_verify_true, H.
Qed.

(** ** Further properties of the verifier *)

(** X1: an output that is empty or holds only whitespace announces no line
    and is rejected (the count check of lines 18 and 19). *)
Theorem blank_output_rejected (output : str) :
  blank output -> lines_of output = [] /\ verify output = false.
Proof.
  intros H. pose proof (lines_of_blank _ H) as Hl. split; [done|].
  apply verify_false. rewrite verify_true, Hl. by intros [? _].
Qed.

Lemma blank_output_rejected_witness :
  verify [] = false /\ verify [SP; LF; 9%N; CR; LF; 160%N] = false.
Proof.
  split.
  - apply (blank_output_rejected []). constructor.
  - apply (blank_output_rejected [SP; LF; 9%N; CR; LF; 160%N]).
    repeat constructor.
Defined.

(** X2: which line boundary ends a line does not matter.  Any of the line
    boundary characters of [str.splitlines], and a carriage return with a
    line feed, gives the announced lines and the result a line feed
    gives. *)
Theorem line_ending_irrelevant :
  (forall s1 s2 b, is_linebreak b = true ->
     lines_of (s1 ++ b :: s2) = lines_of (s1 ++ LF :: s2)
     /\ verify (s1 ++ b :: s2) = verify (s1 ++ LF :: s2))
  /\ (forall s1 s2,
       lines_of (s1 ++ CR :: LF :: s2) = lines_of (s1 ++ LF :: s2)
       /\ verify (s1 ++ CR :: LF :: s2) = verify (s1 ++ LF :: s2)).
Proof.
  split.
  - intros s1 s2 b Hb.
    assert (lines_of (s1 ++ b :: s2) = lines_of (s1 ++ LF :: s2)) as H
      by (by rewrite !lines_of_break_app).
    split; [done|by apply verify_lines].
  - intros s1 s2.
    assert (lines_of (s1 ++ CR :: LF :: s2) = lines_of (s1 ++ LF :: s2)) as H.
    { apply (lines_of_insert_blank s1 [CR] (LF :: s2)); [by repeat constructor|].
      by right. }
    split; [done|by apply verify_lines].
Qed.

Lemma line_ending_irrelevant_witness :
  verify (announce (222%N :: lit "orinn") ++ 8232%N :: render (tail DWARVES))
  = verify (announce (222%N :: lit "orinn") ++ LF :: render (tail DWARVES)).
Proof.
  apply (proj1 line_ending_irrelevant). reflexivity.
Defined.

(** X3: the announced lines of two texts joined by a line boundary are the
    lines of the first, then the lines of the second; so the result of
    [verify] does not depend on which of the two comes first. *)
Theorem lines_of_joined :
  (forall s1 s2 b, is_linebreak b = true ->
     lines_of (s1 ++ b :: s2) = lines_of s1 ++ lines_of s2)
  /\ (forall s1 s2 b, is_linebreak b = true ->
       verify (s1 ++ b :: s2) = verify (s2 ++ b :: s1)).
Proof.
  split; [intros s1 s2 b; apply lines_of_break_app|].
  intros s1 s2 b Hb. apply verify_Permutation.
  rewrite !lines_of_break_app by done. apply Permutation_app_comm.
Qed.

Lemma lines_of_joined_witness :
  verify (render (take 5 DWARVES) ++ LF :: render (drop 5 DWARVES))
  = verify (render (drop 5 DWARVES) ++ LF :: render (take 5 DWARVES)).
Proof. apply (proj2 lines_of_joined). reflexivity. Defined.

(** X4: every line the verifier looks at (the list of line 15) is not
    empty, holds no line boundary, begins and ends with a character that is
    not whitespace, and is left as it is by a further [strip]. *)
Theorem announced_line_shape (output ln : str) :
  ln ∈ lines_of output ->
  ln <> [] /\ one_line ln /\ strip ln = ln
  /\ (forall c, head ln = Some c -> is_space c = false)
  /\ (forall c, last ln = Some c -> is_space c = false).
Proof.
  intros Hin. destruct (lines_of_inv _ _ Hin) as (Hne & H1 & Hs).
  repeat split; try done.
  - intros c Hc. destruct ln as [|a t]; [done|]. injection Hc as <-.
    by apply (strip_head (a :: t) a t).
  - intros c Hc. apply (strip_last ln). by rewrite Hs.
Qed.

Lemma announced_line_shape_witness :
  strip (PREFIX ++ lit "Balin") = PREFIX ++ lit "Balin".
Proof.
  apply (announced_line_shape
           ([SP] ++ PREFIX ++ lit "Balin" ++ [SP; CR; LF] ++ lit "x")
           (PREFIX ++ lit "Balin")).
  apply (bool_decide_unpack _). vm_compute. reflexivity.
Defined.

(** X5: [strip] removes whitespace, and only whitespace, from the two ends:
    the text is the trimmed text between two runs of whitespace, the
    trimmed text neither begins nor ends with whitespace, trimming twice
    changes nothing more, and the trimmed text is empty exactly when the
    text is all whitespace. *)
Theorem strip_spec (s : str) :
  (exists l r, s = l ++ strip s ++ r /\ blank l /\ blank r)
  /\ (forall c, head (strip s) = Some c -> is_space c = false)
  /\ (forall c, last (strip s) = Some c -> is_space c = false)
  /\ strip (strip s) = strip s
  /\ (strip s = [] <-> blank s).
Proof.
  split; [apply strip_split|]. split.
  { intros c Hc. destruct (strip s) as [|a t] eqn:Hs; [done|].
    injection Hc as <-. by apply (strip_head s a t). }
  split; [apply strip_last|]. split; [apply strip_idemp|].
  split; [apply strip_nil_blank|apply strip_blank].
Qed.

(** X6: [splitlines] drops the line boundary characters and nothing else:
    no line holds a line boundary, and the lines put end to end are the
    text without its line boundaries. *)
Theorem splitlines_spec (s : str) :
  Forall one_line (splitlines s)
  /\ mjoin (splitlines s) = filter (fun c => is_linebreak c = false) s.
Proof.
  split.
  - apply splitlines_from_one_line. constructor.
  - unfold splitlines. by rewrite splitlines_from_concat.
Qed.

(** X7: splitting undoes joining: lines without line boundaries, each
    written with a newline after it, are split into the same lines.  So the
    announced lines of an output, written out this way, announce the same
    lines and get the same result. *)
Theorem splitlines_roundtrip :
  (forall ls, Forall one_line ls -> splitlines (unlines ls) = ls)
  /\ (forall output,
       lines_of (unlines (lines_of output)) = lines_of output
       /\ verify (unlines (lines_of output)) = verify output).
Proof.
  split; [apply splitlines_unlines|]. intros output.
  assert (lines_of (unlines (lines_of output)) = lines_of output) as H.
  { unfold lines_of at 1. rewrite splitlines_unlines.
    - apply announced_fixed, Forall_forall. intros ln Hln.
      destruct (lines_of_inv _ _ Hln) as (? & _ & ?). done.
    - apply Forall_forall. intros ln Hln.
      by destruct (lines_of_inv _ _ Hln) as (_ & ? & _). }
  split; [done|by apply verify_lines].
Qed.

Lemma splitlines_roundtrip_witness :
  splitlines (unlines [lit "a b"; []; lit " c"]) = [lit "a b"; []; lit " c"].
Proof.
  apply (proj1 splitlines_roundtrip). repeat constructor.
Defined.

(** X8: [verify] accepts an output exactly when its announced lines are, in
    some order, the 14 expected lines: the prefix followed by a reference
    label, once for each label. *)
Theorem accepted_iff_expected_lines (output : str) :
  verify output = true <-> lines_of output ≡ₚ expected_lines.
Proof.
  split; intros H.
  - by apply expected_verify_true.
  - by apply expected_verify_true.
Qed.

(** X9: the count check of lines 18 and 19 only returns early: without it
    the loop and the comparison of the counters give the same result,
    since counters that are equal count the same number of lines. *)
Theorem count_check_implied (output : str) :
  verify output
  = match collect (lines_of output) [] with
    | None => false
    | Some names => bool_decide (Counter names = Counter DWARVES)
    end.
Proof.
  unfold verify. case_bool_decide as Hlen; [done|]. simpl.
  destruct (decide (Forall prefixed (lines_of output))) as [Hp|Hp].
  - rewrite collect_prefixed by done. simpl. symmetry.
    apply bool_decide_eq_false. intros Hm%Counter_eq%same_multiset_Permutation.
    apply Hlen. by rewrite <-Hm, length_fmap.
  - by rewrite collect_unprefixed.
Qed.

(** X10: a line whose label is not in the reference list makes [verify]
    return false; labels are compared character for character, so a label
    in another case or spelling is such a label. *)
Theorem unknown_label_rejected (output ln d : str) :
  ln ∈ splitlines output -> strip ln = PREFIX ++ d -> d ∉ DWARVES ->
  verify output = false.
Proof.
  intros Hin Hln Hd.
  assert (strip ln <> []) as Hne by (by rewrite Hln).
  pose proof (lines_of_elem _ _ Hin Hne) as Hl.
  apply verify_false. rewrite verify_true. intros (_ & _ & Hm).
  apply label_occurs in Hl. rewrite Hm, Hln, label_prefixed in Hl.
  by apply occurrences_pos in Hl.
Qed.

Lemma unknown_label_rejected_witness :
  verify (PREFIX ++ lit "balin" ++ LF :: render (delete 1 DWARVES)) = false.
Proof.
  apply (unknown_label_rejected _ (PREFIX ++ lit "balin") (lit "balin")).
  - apply (bool_decide_unpack _). vm_compute. reflexivity.
  - vm_compute. reflexivity.
  - apply (bool_decide_unpack _). vm_compute. reflexivity.
Defined.

(** X11: the counter built from a list has exactly the elements of the
    list as keys, each with the number of its occurrences; two counters
    are equal exactly when their lists are permutations of each other. *)
Theorem Counter_spec :
  (forall l x, Counter l !! x = None <-> x ∉ l)
  /\ (forall l x, x ∈ l -> Counter l !! x = Some (occurrences x l))
  /\ (forall a b, Counter a = Counter b <-> a ≡ₚ b).
Proof.
  split; [|split].
  - intros l x. rewrite Counter_lookup, <-occurrences_pos.
    destruct (occurrences x l); [intuition lia|].
    split; [done|]. intros H. exfalso. apply H. lia.
  - intros l x Hx%occurrences_pos. rewrite Counter_lookup.
    destruct (occurrences x l); [lia|done].
  - intros a b. rewrite Counter_eq. split.
    + apply same_multiset_Permutation.
    + apply Permutation_same_multiset.
Qed.

Lemma Counter_spec_witness :
  Counter [lit "a"; lit "b"; lit "a"] !! lit "a" = Some 2.
Proof.
  apply (proj1 (proj2 Counter_spec) [lit "a"; lit "b"; lit "a"] (lit "a")).
  apply (bool_decide_unpack _). vm_compute. reflexivity.
Defined.

(** X12: the loop of lines 22 to 26 stops with [return False] when some
    line lacks the prefix; otherwise it appends, to the names it started
    with, the label of every line in line order. *)
Theorem collect_spec (lines names : list str) :
  collect lines names
  = if decide (Forall prefixed lines)
    then Some (names ++ (label <$> lines)) else None.
Proof.
  destruct (decide (Forall prefixed lines)) as [H|H].
  - by apply collect_prefixed.
  - by apply collect_unprefixed.
Qed.

(** X13: the prefix check and the slice fit together.  A line made of the
    prefix and a label passes the check and gives the label back; a line
    that passes the check is the prefix followed by its label; a line
    shorter than the prefix fails the check, so the slice is never taken
    past the end of a line. *)
Theorem prefix_label_roundtrip :
  (forall d, startswith (PREFIX ++ d) PREFIX = true /\ label (PREFIX ++ d) = d)
  /\ (forall ln, startswith ln PREFIX = true -> PREFIX ++ label ln = ln)
  /\ (forall ln, length ln < length PREFIX -> startswith ln PREFIX = false).
Proof.
  split; [|split].
  - intros d. split; [|apply label_prefixed].
    apply startswith_prefixed, prefixed_app.
  - intros ln H%startswith_prefixed. by apply prefixed_label.
  - intros ln Hlen. destruct (startswith ln PREFIX) eqn:E; [|done].
    apply startswith_prefixed, prefix_length in E. lia.
Qed.

Lemma prefix_label_roundtrip_witness :
  startswith (lit "Hi! My name is") PREFIX = false.
Proof.
  apply (proj2 (proj2 prefix_label_roundtrip)). vm_compute. lia.
Defined.

(** ** Further properties of the program *)

(** X14: the program prints [Yes] exactly when the command ran to its end
    with exit status 0 and the announced lines of its standard output are,
    in some order, the 14 expected lines; [verify] is called at most once,
    and only after such an exit. *)
Theorem main_yes_iff (run : outcome) :
  (printed (trace run) = ["Yes"%string] <->
   exists proc, run = Returned proc /\ returncode proc = 0%Z
                /\ lines_of (stdout proc) ≡ₚ expected_lines)
  /\ (forall output, output ∈ verified (trace run) ->
      verified (trace run) = [output]
      /\ exists rc, run = Returned {| returncode := rc; stdout := output |}
                    /\ rc = 0%Z).
Proof.
  unfold trace. destruct run as [e|[rc out]]; simpl.
  - split; [|intros output []%elem_of_nil].
    split; [done|]. by intros (proc & ? & _).
  - destruct (Z.eqb_spec rc 0) as [->|Hrc]; simpl.
    + split.
      * split.
        -- intros H. exists {| returncode := 0; stdout := out |}.
           repeat split. apply expected_verify_true. simpl.
           by destruct (verify out).
        -- intros (proc & [= <-] & _ & H%expected_verify_true).
           simpl in H. by rewrite H.
      * intros output ->%list_elem_of_singleton. split; [done|]. by exists 0%Z.
    + split; [|intros output []%elem_of_nil].
      split; [done|]. intros (proc & [= <-] & H & _). done.
Qed.
